(** * cubeb_log.cpp: the logging facility of cubeb

    A shallow embedding of [src/cubeb_log.cpp]: the fixed-capacity log
    message, the asynchronous logger (queue, shutdown flag, drain thread)
    and the process-wide level and callback with [cubeb_log_set].

    Bytes are [Byte.byte], a [char] array is a [list byte], the C string a
    pointer designates is the memory behind it up to the first NUL.  Code
    that can abort (a failed [assert], [std::terminate]) or run into
    undefined behaviour (a null dereference, [strlen] on memory without a
    terminator) returns an [outcome]; code that updates the globals runs in
    the state monad [M] over [world]. *)

From Stdlib Require Import ZArith Strings.Byte Strings.String.
From stdpp Require Import base list relations.

Local Open Scope nat_scope.

(** ** Outcomes *)

Inductive outcome (A : Type) : Type :=
| Returns (a : A)   (* the call returns *)
| Aborted           (* abort(): a failed assert, or std::terminate *)
| Undefined.        (* undefined behaviour: null dereference, read past an object *)
Arguments Returns {A} a.
Arguments Aborted {A}.
Arguments Undefined {A}.

#[global] Instance outcome_ret : MRet outcome := fun A a => Returns a.
#[global] Instance outcome_bind : MBind outcome := fun A B f m =>
  match m with
  | Returns a => f a
  | Aborted => Aborted
  | Undefined => Undefined
  end.

(** ** Constants of the translation unit *)

Definition CUBEB_LOG_MESSAGE_MAX_SIZE : nat := 256.
Definition CUBEB_LOG_MESSAGE_QUEUE_DEPTH : nat := 40.

(** ** C strings *)

Definition NUL : byte := x00.

#[global] Instance byte_eq_decision : EqDecision byte := Byte.byte_eq_dec.

(** [strlen p]: the index of the first NUL of the memory behind [p]; without
    one the read leaves the object. *)
Fixpoint strlen (mem : list byte) : option nat :=
  match mem with
  | [] => None
  | c :: rest => if Byte.eqb c NUL then Some 0 else S <$> strlen rest
  end.

(** The text a [char const *] designates: the bytes before the first NUL. *)
Fixpoint c_str (mem : list byte) : list byte :=
  match mem with
  | [] => []
  | c :: rest => if Byte.eqb c NUL then [] else c :: c_str rest
  end.

(** [PodCopy(dst, src, n)]: the first [n] elements of [dst] become those of
    [src]. *)
Definition PodCopy (dst src : list byte) (n : nat) : list byte :=
  take n src ++ drop n dst.

Section Build.

(** [NDEBUG]: whether [assert] is compiled out. *)
Variable NDEBUG : bool.

Definition assert (cond : bool) : outcome unit :=
  if NDEBUG || cond then Returns tt else Aborted.

(** ** class cubeb_log_message *)

Record cubeb_log_message : Type := { storage : list byte }.

(** A constructor runs on storage whose bytes are indeterminate: [uninit]
    is what the [CUBEB_LOG_MESSAGE_MAX_SIZE] bytes of the object hold when
    the constructor is entered. *)
Definition cubeb_log_message_default (uninit : list byte) : cubeb_log_message :=
  {| storage := <[0 := NUL]> uninit |}.

Definition cubeb_log_message_of (uninit str : list byte) : outcome cubeb_log_message :=
  match strlen str with
  | None => Undefined
  | Some length =>
      assert (length <? CUBEB_LOG_MESSAGE_MAX_SIZE) ;;
      if CUBEB_LOG_MESSAGE_MAX_SIZE - 1 <? length
      then mret {| storage := uninit |}
      else mret {| storage := <[length := NUL]> (PodCopy uninit str length) |}
  end.

Definition get (msg : cubeb_log_message) : list byte := storage msg.

(** ** The queue

    Modelled from the spec: [lock_free_queue] is declared in
    cubeb_ringbuffer.h, which is not among the sources.  The spec gives its
    interface: a bounded, pre-sized FIFO; [enqueue(value) -> bool] never
    blocks and returns false on a full queue, leaving it as it was;
    [dequeue(out, max_count)] returns the number of entries taken;
    [reset_thread_ids()] only touches the thread-affinity bookkeeping of the
    debug assertions. *)
Record lock_free_queue : Type :=
  { capacity : nat; items : list cubeb_log_message }.

Definition new_lock_free_queue (depth : nat) : lock_free_queue :=
  {| capacity := depth; items := [] |}.

Definition enqueue (q : lock_free_queue) (msg : cubeb_log_message)
  : bool * lock_free_queue :=
  if length (items q) <? capacity q
  then (true, {| capacity := capacity q; items := items q ++ [msg] |})
  else (false, q).

(** [dequeue(&msg, 1)]: [None] stands for the count 0. *)
Definition dequeue (q : lock_free_queue)
  : option (cubeb_log_message * lock_free_queue) :=
  match items q with
  | [] => None
  | msg :: rest => Some (msg, {| capacity := capacity q; items := rest |})
  end.

Definition reset_thread_ids (q : lock_free_queue) : lock_free_queue := q.

(** ** Global state *)

(** A [cubeb_log_callback] is a function pointer: null, the address of
    [cubeb_noop_log_callback], or the address of another function. *)
Inductive cubeb_log_callback : Type :=
| nullptr
| cubeb_noop_log_callback
| callback_at (addr : N).

#[global] Instance cubeb_log_callback_eq_dec : EqDecision cubeb_log_callback.
Proof. solve_decision. Defined.

(** [cubeb_log_level] is an enum of cubeb.h; its values are integers. *)
Definition cubeb_log_level : Type := Z.

(** The arguments handed to a printf-like callback. *)
Inductive vararg : Type :=
| va_str (s : list byte)
| va_int (n : Z).

(** What the other threads and the sink can observe, in program order. *)
Inductive event : Type :=
| level_stored (l : cubeb_log_level)
| callback_stored (cb : cubeb_log_callback)
| thread_started
| thread_joined
| callback_called (cb : cubeb_log_callback) (fmt : list byte) (args : list vararg).

(** [logging_thread] holds whether the handle is joinable, that is
    [logging_thread.get_id() != std::thread::id()]. *)
Record cubeb_async_logger : Type :=
  { msg_queue : option lock_free_queue;
    shutdown_thread : bool;
    logging_thread : bool }.

Record world : Type :=
  { g_cubeb_log_level : cubeb_log_level;
    g_cubeb_log_callback : cubeb_log_callback;
    instance : cubeb_async_logger;
    trace : list event }.

Definition set_msg_queue (q : option lock_free_queue) (lg : cubeb_async_logger) :=
  {| msg_queue := q;
     shutdown_thread := shutdown_thread lg;
     logging_thread := logging_thread lg |}.

Definition set_shutdown_thread (b : bool) (lg : cubeb_async_logger) :=
  {| msg_queue := msg_queue lg;
     shutdown_thread := b;
     logging_thread := logging_thread lg |}.

Definition set_logging_thread (b : bool) (lg : cubeb_async_logger) :=
  {| msg_queue := msg_queue lg;
     shutdown_thread := shutdown_thread lg;
     logging_thread := b |}.

Definition with_level (l : cubeb_log_level) (w : world) : world :=
  {| g_cubeb_log_level := l;
     g_cubeb_log_callback := g_cubeb_log_callback w;
     instance := instance w;
     trace := trace w |}.

Definition with_callback (cb : cubeb_log_callback) (w : world) : world :=
  {| g_cubeb_log_level := g_cubeb_log_level w;
     g_cubeb_log_callback := cb;
     instance := instance w;
     trace := trace w |}.

Definition with_instance (lg : cubeb_async_logger) (w : world) : world :=
  {| g_cubeb_log_level := g_cubeb_log_level w;
     g_cubeb_log_callback := g_cubeb_log_callback w;
     instance := lg;
     trace := trace w |}.

Definition with_trace (tr : list event) (w : world) : world :=
  {| g_cubeb_log_level := g_cubeb_log_level w;
     g_cubeb_log_callback := g_cubeb_log_callback w;
     instance := instance w;
     trace := tr |}.

(** Static storage is zero-initialised; the singleton of
    [cubeb_async_logger::get] is built with an empty [unique_ptr], a clear
    flag and a default [std::thread]. *)
Definition initial_world : world :=
  {| g_cubeb_log_level := 0%Z;
     g_cubeb_log_callback := nullptr;
     instance := {| msg_queue := None;
                    shutdown_thread := false;
                    logging_thread := false |};
     trace := [] |}.

(** ** The monad of the stateful code *)

Definition M (A : Type) : Type := world -> outcome (A * world).

#[global] Instance M_ret : MRet M := fun A a w => Returns (a, w).
#[global] Instance M_bind : MBind M := fun A B f m w =>
  match m w with
  | Returns (a, w') => f a w'
  | Aborted => Aborted
  | Undefined => Undefined
  end.

Definition lift {A} (o : outcome A) : M A :=
  fun w => match o with
           | Returns a => Returns (a, w)
           | Aborted => Aborted
           | Undefined => Undefined
           end.

Definition undefined {A} : M A := fun _ => Undefined.
Definition terminate {A} : M A := fun _ => Aborted.

(** [cubeb_async_logger::get()] *)
Definition this : M cubeb_async_logger := fun w => Returns (instance w, w).

Definition update (f : cubeb_async_logger -> cubeb_async_logger) : M unit :=
  fun w => Returns (tt, with_instance (f (instance w)) w).

Definition emit (e : event) : M unit :=
  fun w => Returns (tt, with_trace (trace w ++ [e]) w).

Definition load_level : M cubeb_log_level :=
  fun w => Returns (g_cubeb_log_level w, w).

Definition load_callback : M cubeb_log_callback :=
  fun w => Returns (g_cubeb_log_callback w, w).

Definition store_level (l : cubeb_log_level) : M unit :=
  fun w => emit (level_stored l) (with_level l w).

Definition store_callback (cb : cubeb_log_callback) : M unit :=
  fun w => emit (callback_stored cb) (with_callback cb w).

(** A call through a function pointer; what the callee does with its
    arguments is the sink's business. *)
Definition call (cb : cubeb_log_callback) (fmt : list byte) (args : list vararg)
  : M unit :=
  match cb with
  | nullptr => undefined
  | _ => emit (callback_called cb fmt args)
  end.

Definition cubeb_log_internal_no_format (msg : list byte) : M unit :=
  cb ← load_callback;
  call cb (c_str msg) [].

(** ** class cubeb_async_logger *)

(** [msg_queue->]: dereferencing the [unique_ptr]. *)
Definition deref_msg_queue : M lock_free_queue :=
  lg ← this;
  match msg_queue lg with
  | None => undefined
  | Some q => mret q
  end.

Definition push (uninit str : list byte) : M unit :=
  msg ← lift (cubeb_log_message_of uninit str);
  q ← deref_msg_queue;
  update (set_msg_queue (Some (enqueue q msg).2)).

(** The inner loop of the thread of [run]:
    [while (msg_queue->dequeue(&msg, 1)) cubeb_log_internal_no_format(msg.get())],
    cut after [n] messages.  The thread runs beside the control path, so how
    far it gets before it reads [shutdown_thread] is the scheduler's choice. *)
Fixpoint drain (n : nat) : M unit :=
  match n with
  | 0 => mret tt
  | S n' =>
      q ← deref_msg_queue;
      match dequeue q with
      | None => mret tt
      | Some (msg, q') =>
          update (set_msg_queue (Some q')) ;;
          cubeb_log_internal_no_format (get msg) ;;
          drain n'
      end
  end.

(** Assigning to a joinable [std::thread] calls [std::terminate]; a thread
    started without a queue dereferences the empty [unique_ptr]. *)
Definition run : M unit :=
  lg ← this;
  lift (assert (negb (logging_thread lg))) ;;
  lift (assert (bool_decide (is_Some (msg_queue lg)))) ;;
  if logging_thread lg then terminate
  else match msg_queue lg with
       | None => undefined
       | Some _ => update (set_logging_thread true) ;; emit thread_started
       end.

Definition reset_producer_thread : M unit :=
  q ← deref_msg_queue;
  update (set_msg_queue (Some (reset_thread_ids q))).

Definition start : M unit :=
  update (set_msg_queue (Some (new_lock_free_queue CUBEB_LOG_MESSAGE_QUEUE_DEPTH))) ;;
  update (set_shutdown_thread false) ;;
  run.

(** [while (msg_queue->dequeue(&msg, 1)) {}] on the entries of the queue. *)
Fixpoint dequeue_all (pending : list cubeb_log_message) : list cubeb_log_message :=
  match pending with
  | [] => []
  | _ :: rest => dequeue_all rest
  end.

Definition purge_queue : M unit :=
  lg ← this;
  lift (assert (negb (logging_thread lg))) ;;
  match msg_queue lg with
  | None => mret tt
  | Some q =>
      update (set_msg_queue
                (Some {| capacity := capacity q; items := dequeue_all (items q) |}))
  end.

(** [forwarded]: the number of queued messages the drain thread still
    forwards between the store to [shutdown_thread] and its exit. *)
Definition stop (forwarded : nat) : M unit :=
  update (set_shutdown_thread true) ;;
  lg ← this;
  if logging_thread lg then
    drain forwarded ;; emit thread_joined ;;
    update (set_logging_thread false) ;;
    q ← deref_msg_queue;
    update (set_msg_queue (Some (reset_thread_ids q))) ;;
    purge_queue ;;
    update (set_msg_queue None)
  else mret tt.

(** ** The formatting entry points *)

(** [format fmt args]: the text printf renders for [fmt] and [args]; the C
    library's, taken as given. *)
Variable format : list byte -> list vararg -> list byte.

(** [vsnprintf(buf, size, fmt, args)] for [size > 0]: at most [size - 1]
    bytes of the rendering, then the terminator. *)
Definition vsnprintf (buf : list byte) (size : nat) (fmt : list byte)
    (args : list vararg) : list byte :=
  let text := format fmt args in
  let n := Nat.min (length text) (size - 1) in
  <[n := NUL]> (PodCopy buf text n).

Definition cubeb_log_internal (uninit : list byte) (file : list byte) (line : Z)
    (fmt : list byte) (args : list vararg) : M unit :=
  let msg := vsnprintf uninit CUBEB_LOG_MESSAGE_MAX_SIZE fmt args in
  cb ← load_callback;
  call cb (list_byte_of_string "%s:%d:%s") [va_str file; va_int line; va_str (c_str msg)].

(** [uninit_msg]: the bytes of the local array [msg] on entry; [uninit_obj]:
    those of the [cubeb_log_message] that [push] builds. *)
Definition cubeb_async_log (uninit_msg uninit_obj : list byte)
    (fmt : list byte) (args : list vararg) : M unit :=
  let msg := vsnprintf uninit_msg CUBEB_LOG_MESSAGE_MAX_SIZE fmt args in
  push uninit_obj msg.

Definition cubeb_async_log_reset_threads : M unit :=
  cb ← load_callback;
  if bool_decide (cb = nullptr) then mret tt
  else reset_producer_thread.

(** ** The global configuration *)

(** [CUBEB_LOG_DISABLED]: an enumerator of [cubeb_log_level], declared in
    cubeb.h, which is not among the sources; its integer value is a
    parameter.  As an operand of [||] it is true exactly when that value is
    not 0. *)
Variable CUBEB_LOG_DISABLED : cubeb_log_level.

Definition is_set (cb : cubeb_log_callback) : bool :=
  negb (bool_decide (cb = nullptr)).

(** The conditions of the [if] and of the [else if] of [cubeb_log_set]:
    [log_callback && log_level != CUBEB_LOG_DISABLED] and
    [!log_callback || CUBEB_LOG_DISABLED]. *)
Definition enable_condition (log_level : cubeb_log_level)
    (log_callback : cubeb_log_callback) : bool :=
  is_set log_callback && negb (log_level =? CUBEB_LOG_DISABLED)%Z.

Definition disable_condition (log_callback : cubeb_log_callback) : bool :=
  negb (is_set log_callback) || negb (CUBEB_LOG_DISABLED =? 0)%Z.

Definition cubeb_log_set (forwarded : nat) (log_level : cubeb_log_level)
    (log_callback : cubeb_log_callback) : M unit :=
  store_level log_level ;;
  if enable_condition log_level log_callback then
    store_callback log_callback ;;
    start
  else if disable_condition log_callback then
    stop forwarded ;;
    store_callback cubeb_noop_log_callback ;;
    purge_queue
  else
    lift (assert false).

Definition cubeb_log_get_level (w : world) : cubeb_log_level :=
  g_cubeb_log_level w.

Definition cubeb_log_get_callback (w : world) : cubeb_log_callback :=
  if bool_decide (g_cubeb_log_callback w = cubeb_noop_log_callback)
  then nullptr
  else g_cubeb_log_callback w.

(** ** Concrete inputs *)

(** The two builds. *)
Definition release_build : bool := true.
Definition debug_build : bool := false.

(** C numbers the enumerators of an enum from 0 and the disabled level is
    the lowest of [cubeb_log_level]: the concrete runs take 0 for
    [CUBEB_LOG_DISABLED], and 1 for an enabled level. *)
Definition LOG_DISABLED_0 : cubeb_log_level := 0%Z.
Definition LOG_NORMAL_1 : cubeb_log_level := 1%Z.

(** A text of [CUBEB_LOG_MESSAGE_MAX_SIZE] bytes with its terminator. *)
Definition oversize_str : list byte :=
  replicate CUBEB_LOG_MESSAGE_MAX_SIZE "a"%byte ++ [NUL].

(** What a stack slot may hold before a message is built in it. *)
Definition stale_bytes : list byte :=
  list_byte_of_string "stale" ++ replicate 251 NUL.

(** The state after [cubeb_log_set(LOG_NORMAL_1, callback_at 1)] on the
    initial state (see [running_world_reached]): logging is on. *)
Definition running_world : world :=
  {| g_cubeb_log_level := LOG_NORMAL_1;
     g_cubeb_log_callback := callback_at 1;
     instance :=
       {| msg_queue := Some (new_lock_free_queue CUBEB_LOG_MESSAGE_QUEUE_DEPTH);
          shutdown_thread := false;
          logging_thread := true |};
     trace := [level_stored LOG_NORMAL_1; callback_stored (callback_at 1);
               thread_started] |}.

(** Two queued messages, and a running logger that holds them. *)
Definition msg_one : cubeb_log_message :=
  {| storage := list_byte_of_string "one" ++ replicate 253 NUL |}.
Definition msg_two : cubeb_log_message :=
  {| storage := list_byte_of_string "two" ++ replicate 253 NUL |}.

Definition busy_queue : lock_free_queue :=
  {| capacity := CUBEB_LOG_MESSAGE_QUEUE_DEPTH; items := [msg_one; msg_two] |}.

Definition busy_world : world :=
  with_instance (set_msg_queue (Some busy_queue) (instance running_world))
    running_world.

(** A running logger whose queue is full. *)
Definition full_queue : lock_free_queue :=
  {| capacity := CUBEB_LOG_MESSAGE_QUEUE_DEPTH;
     items := replicate CUBEB_LOG_MESSAGE_QUEUE_DEPTH msg_one |}.

Definition full_world : world :=
  with_instance (set_msg_queue (Some full_queue) (instance running_world))
    running_world.

(** The state after [cubeb_log_set(LOG_DISABLED_0, nullptr)] on
    [running_world]: logging is off again. *)
Definition disabled_world : world :=
  {| g_cubeb_log_level := LOG_DISABLED_0;
     g_cubeb_log_callback := cubeb_noop_log_callback;
     instance := {| msg_queue := None; shutdown_thread := true;
                    logging_thread := false |};
     trace := trace running_world ++
              [level_stored LOG_DISABLED_0; thread_joined;
               callback_stored cubeb_noop_log_callback] |}.

(** A rendering for templates without conversions: the template itself. *)
Definition format_verbatim (fmt : list byte) (args : list vararg) : list byte := fmt.

(** ** Auxiliary notions for the statements *)

(** [a] occurs in [tr] at an earlier position than [b]. *)
Definition precedes (a b : event) (tr : list event) : Prop :=
  exists i j, i < j /\ tr !! i = Some a /\ tr !! j = Some b.

(** [f] applied to the state a call returns with. *)
Definition on_world {A} (f : world -> world) (o : outcome (A * world))
  : outcome (A * world) :=
  match o with
  | Returns (a, w) => Returns (a, f w)
  | Aborted => Aborted
  | Undefined => Undefined
  end.

(** The states the public operations keep the logger in: the queue is held
    exactly while the drain thread is joinable, and a running drain thread
    has a callback to call. *)
Definition consistent (w : world) : Prop :=
  bool_decide (is_Some (msg_queue (instance w))) = logging_thread (instance w) /\
  (logging_thread (instance w) = true -> g_cubeb_log_callback w <> nullptr).

(** The queue of the logger has the depth [start] gives it and holds no
    more entries than that. *)
Definition queue_bounded (w : world) : Prop :=
  forall q, msg_queue (instance w) = Some q ->
    capacity q = CUBEB_LOG_MESSAGE_QUEUE_DEPTH /\
    length (items q) <= CUBEB_LOG_MESSAGE_QUEUE_DEPTH.

(** What the process can do to the state: a call of one of the entry points
    of the file that returns, or the drain thread, while it runs, forwarding
    some queued messages. *)
Inductive step : world -> world -> Prop :=
| step_set n l cb w w' :
    cubeb_log_set n l cb w = Returns (tt, w') -> step w w'
| step_log_internal uninit file line fmt args w w' :
    cubeb_log_internal uninit file line fmt args w = Returns (tt, w') -> step w w'
| step_async_log uninit_msg uninit_obj fmt args w w' :
    cubeb_async_log uninit_msg uninit_obj fmt args w = Returns (tt, w') -> step w w'
| step_reset_threads w w' :
    cubeb_async_log_reset_threads w = Returns (tt, w') -> step w w'
| step_drain n w w' :
    logging_thread (instance w) = true ->
    drain n w = Returns (tt, w') -> step w w'.

(** The states the process can be in. *)
Definition reachable (w : world) : Prop := rtc step initial_world w.

(** ** C strings and the message buffer *)

Lemma eqb_NUL (c : byte) : Byte.eqb c NUL = bool_decide (c = NUL).
Proof.
  destruct (Byte.eqb c NUL) eqn:E.
  - apply byte_dec_bl in E. by rewrite bool_decide_eq_true_2.
  - apply eqb_false in E. by rewrite bool_decide_eq_false_2.
Qed.

Lemma strlen_text (m rest : list byte) :
  Forall (fun c => c <> NUL) m -> strlen (m ++ NUL :: rest) = Some (length m).
Proof.
  induction 1 as [|c m Hc _ IH]; simpl.
  - done.
  - rewrite eqb_NUL, bool_decide_eq_false_2 by done. by rewrite IH.
Qed.

Lemma c_str_text (m rest : list byte) :
  Forall (fun c => c <> NUL) m -> c_str (m ++ NUL :: rest) = m.
Proof.
  induction 1 as [|c m Hc _ IH]; simpl.
  - done.
  - rewrite eqb_NUL, bool_decide_eq_false_2 by done. by rewrite IH.
Qed.

(** Memory with a terminator is its text, the NUL, and what follows. *)
Lemma strlen_Some (mem : list byte) (n : nat) :
  strlen mem = Some n ->
  exists rest, mem = c_str mem ++ NUL :: rest /\
               length (c_str mem) = n /\
               Forall (fun c => c <> NUL) (c_str mem).
Proof.
  revert n. induction mem as [|c mem IH]; intros n; simpl; [done|].
  rewrite eqb_NUL. case_bool_decide as Hc.
  - intros [= <-]. exists mem. by subst c.
  - destruct (strlen mem) as [k|] eqn:Hk; [|done].
    intros [= <-]. destruct (IH k eq_refl) as (rest & Hmem & Hlen & Hall).
    exists rest. simpl. split_and!; [by rewrite <- Hmem | by rewrite Hlen | by constructor].
Qed.

Lemma strlen_terminated (mem : list byte) (i : nat) :
  mem !! i = Some NUL -> exists n, strlen mem = Some n /\ n <= i.
Proof.
  revert i. induction mem as [|c mem IH]; intros i; [done|]. simpl.
  rewrite eqb_NUL. case_bool_decide as Hc.
  - intros _. exists 0. split; [done | lia].
  - destruct i as [|i]; simpl; [by intros [= ->]|].
    intros Hi. destruct (IH i Hi) as (n & -> & Hn). exists (S n). split; [done | lia].
Qed.

(** [PodCopy] of [n] bytes followed by the store of the terminator. *)
Lemma PodCopy_insert (buf src : list byte) (n : nat) :
  n <= length src ->
  n < length buf ->
  <[n := NUL]> (PodCopy buf src n) = take n src ++ NUL :: drop (S n) buf.
Proof.
  intros Hsrc Hbuf. unfold PodCopy.
  rewrite insert_app_r_alt by (rewrite length_take; lia).
  rewrite length_take, Nat.min_l, Nat.sub_diag by lia.
  destruct (drop n buf) as [|c tl] eqn:Hd.
  - apply (f_equal length) in Hd. rewrite length_drop in Hd. simpl in Hd. lia.
  - simpl. do 2 f_equal.
    change tl with (drop 1 (c :: tl)). rewrite <- Hd, drop_drop. f_equal. lia.
Qed.

Lemma PodCopy_terminate (buf m rest : list byte) :
  length m < length buf ->
  <[length m := NUL]> (PodCopy buf (m ++ NUL :: rest) (length m))
  = m ++ NUL :: drop (S (length m)) buf.
Proof.
  intros Hlen. rewrite PodCopy_insert by (rewrite ?length_app; lia).
  by rewrite take_app_length.
Qed.

Lemma c_str_app_NUL (m rest : list byte) : c_str (m ++ NUL :: rest) = c_str m.
Proof.
  induction m as [|c m IH]; simpl; [done|].
  destruct (Byte.eqb c NUL); [done | by rewrite IH].
Qed.

Lemma assert_true : assert true = Returns tt.
Proof. unfold assert. by rewrite orb_true_r. Qed.

(** The message built from a text shorter than the capacity: the text, the
    terminator, and behind it what the storage held before. *)
Lemma cubeb_log_message_of_text (uninit m rest : list byte) :
  Forall (fun c => c <> NUL) m ->
  length m < CUBEB_LOG_MESSAGE_MAX_SIZE ->
  length m < length uninit ->
  cubeb_log_message_of uninit (m ++ NUL :: rest)
  = Returns {| storage := m ++ NUL :: drop (S (length m)) uninit |}.
Proof.
  intros Hm Hlen Hbuf. unfold cubeb_log_message_of.
  rewrite (strlen_text _ _ Hm).
  assert ((length m <? CUBEB_LOG_MESSAGE_MAX_SIZE) = true) as -> by (apply Nat.ltb_lt; lia).
  rewrite assert_true. cbn [mbind outcome_bind].
  assert ((CUBEB_LOG_MESSAGE_MAX_SIZE - 1 <? length m) = false) as ->
    by (apply Nat.ltb_ge; lia).
  by rewrite PodCopy_terminate.
Qed.

(** C4: a text shorter than the capacity, the empty one included, is read
    back from the message built from it exactly as it was given. *)
Theorem cubeb_log_message_round_trip (uninit m rest : list byte) :
  length uninit = CUBEB_LOG_MESSAGE_MAX_SIZE ->
  Forall (fun c => c <> NUL) m ->
  length m < CUBEB_LOG_MESSAGE_MAX_SIZE ->
  exists msg,
    cubeb_log_message_of uninit (m ++ NUL :: rest) = Returns msg /\
    c_str (get msg) = m /\
    length (get msg) = CUBEB_LOG_MESSAGE_MAX_SIZE.
Proof.
  intros Hbuf Hm Hlen.
  eexists. split; [apply cubeb_log_message_of_text; [done | done | lia]|].
  unfold get; simpl storage. split.
  - by apply c_str_text.
  - rewrite length_app. simpl. rewrite length_drop. lia.
Qed.

(** A text of at least the capacity: with asserts compiled in the
    constructor aborts, without them it returns before it writes anything,
    and the message is whatever its storage held. *)
Lemma cubeb_log_message_oversize (uninit str : list byte) (n : nat) :
  strlen str = Some n ->
  CUBEB_LOG_MESSAGE_MAX_SIZE <= n ->
  cubeb_log_message_of uninit str
  = if NDEBUG then Returns {| storage := uninit |} else Aborted.
Proof.
  intros Hn Hge. unfold cubeb_log_message_of. rewrite Hn.
  assert ((n <? CUBEB_LOG_MESSAGE_MAX_SIZE) = false) as -> by (apply Nat.ltb_ge; lia).
  unfold assert. rewrite orb_false_r. destruct NDEBUG; [|done]. cbn [mbind outcome_bind].
  assert ((CUBEB_LOG_MESSAGE_MAX_SIZE - 1 <? n) = true) as ->; [|done].
  apply Nat.ltb_lt. unfold CUBEB_LOG_MESSAGE_MAX_SIZE in *. lia.
Qed.

(** ** The asynchronous logger *)

Ltac run_M :=
  repeat first
    [ progress unfold mbind, mret, M_bind, M_ret, outcome_bind, outcome_ret,
        lift, this, update, emit, load_callback, load_level, store_level,
        store_callback, undefined, terminate, deref_msg_queue,
        with_instance, with_trace, with_level, with_callback,
        set_msg_queue, set_shutdown_thread, set_logging_thread
    | progress cbn [instance trace g_cubeb_log_level g_cubeb_log_callback
        msg_queue shutdown_thread logging_thread negb fst snd] ].

Lemma dequeue_all_nil (pending : list cubeb_log_message) : dequeue_all pending = [].
Proof. induction pending; simpl; done. Qed.

(** Without a drain thread [stop] only writes the flag. *)
Lemma stop_stopped (n : nat) (w : world) :
  logging_thread (instance w) = false ->
  stop n w = Returns (tt, with_instance (set_shutdown_thread true (instance w)) w).
Proof.
  destruct w as [lvl cb [q sd th] tr]; simpl. intros ->.
  unfold stop. by run_M.
Qed.

(** The drain thread forwards messages to a callback that is set, and
    leaves everything but the queue's entries and the trace alone. *)
Lemma drain_returns (n : nat) (w : world) (q : lock_free_queue) :
  msg_queue (instance w) = Some q ->
  g_cubeb_log_callback w <> nullptr ->
  exists w' q',
    drain n w = Returns (tt, w') /\
    msg_queue (instance w') = Some q' /\
    capacity q' = capacity q /\
    items q' = drop n (items q) /\
    shutdown_thread (instance w') = shutdown_thread (instance w) /\
    logging_thread (instance w') = logging_thread (instance w) /\
    g_cubeb_log_level w' = g_cubeb_log_level w /\
    g_cubeb_log_callback w' = g_cubeb_log_callback w /\
    trace w' = trace w ++
      map (fun msg => callback_called (g_cubeb_log_callback w) (c_str (get msg)) [])
          (take n (items q)).
Proof.
  revert w q. induction n as [|n IH]; intros w q Hq Hcb.
  - exists w, q. simpl. rewrite drop_0, app_nil_r. by split_and!.
  - destruct w as [lvl cb [oq sd th] tr]; simpl in Hq, Hcb; subst oq.
    destruct q as [cap [|msg pending]].
    + eexists _, _. simpl drain. run_M. unfold dequeue. simpl.
      split; [reflexivity|]. simpl. rewrite app_nil_r. by split_and!.
    + set (w1 := {| g_cubeb_log_level := lvl; g_cubeb_log_callback := cb;
                    instance := {| msg_queue := Some {| capacity := cap; items := pending |};
                                   shutdown_thread := sd; logging_thread := th |};
                    trace := tr ++ [callback_called cb (c_str (get msg)) []] |}).
      destruct (IH w1 {| capacity := cap; items := pending |} eq_refl Hcb)
        as (w' & q' & Hrun & Hq' & Hcap & Hitems & Hsd & Hth & Hlvl & Hcb' & Htr).
      exists w', q'. simpl drain. run_M. unfold dequeue. simpl.
      unfold cubeb_log_internal_no_format, call. run_M.
      destruct cb; [done| |]; run_M; fold w1; rewrite Hrun;
        (split; [reflexivity|]); simpl in *;
        rewrite Htr, <- app_assoc; by split_and!.
Qed.

(** From a consistent state [stop] returns, whatever the drain thread still
    forwards, with the queue released and the thread handle empty; level
    and callback are not touched. *)
Lemma stop_returns (n : nat) (w : world) :
  consistent w ->
  exists w',
    stop n w = Returns (tt, w') /\
    instance w' = {| msg_queue := None; shutdown_thread := true; logging_thread := false |} /\
    g_cubeb_log_level w' = g_cubeb_log_level w /\
    g_cubeb_log_callback w' = g_cubeb_log_callback w.
Proof.
  intros [Hq Hcb]. destruct (logging_thread (instance w)) eqn:Hth.
  - destruct w as [lvl cb [[q|] sd th] tr]; simpl in *; subst th; [|done].
    specialize (Hcb eq_refl).
    set (w0 := {| g_cubeb_log_level := lvl; g_cubeb_log_callback := cb;
                  instance := {| msg_queue := Some q; shutdown_thread := true;
                                 logging_thread := true |};
                  trace := tr |}).
    destruct (drain_returns n w0 q eq_refl Hcb) as
      (w' & q' & Hrun & Hq' & _ & _ & Hsd & Hth' & Hlvl & Hcb' & _).
    unfold stop. run_M. fold w0. rewrite Hrun. run_M.
    rewrite Hq'. unfold purge_queue. run_M. rewrite assert_true.
    eexists. split; [reflexivity|]. simpl. by rewrite Hsd, Hlvl, Hcb'.
  - rewrite (stop_stopped n w Hth). eexists. split; [reflexivity|].
    by destruct w as [lvl cb [[q|] sd th] tr]; simpl in *; subst.
Qed.

(** C8: with no drain thread [stop] returns leaving queue ownership and
    thread handle (and level, callback and trace) as they were, the
    shutdown flag set; a second [stop] changes nothing, so [stop] twice is
    [stop] once. *)
Theorem stop_idempotent_when_stopped (n n' : nat) (w : world) :
  logging_thread (instance w) = false ->
  exists w',
    stop n w = Returns (tt, w') /\
    msg_queue (instance w') = msg_queue (instance w) /\
    logging_thread (instance w') = logging_thread (instance w) /\
    shutdown_thread (instance w') = true /\
    g_cubeb_log_level w' = g_cubeb_log_level w /\
    g_cubeb_log_callback w' = g_cubeb_log_callback w /\
    trace w' = trace w /\
    stop n' w' = Returns (tt, w') /\
    (stop n ;; stop n') w = stop n w.
Proof.
  intros Hth. rewrite (stop_stopped n w Hth).
  eexists. split; [reflexivity|].
  destruct w as [lvl cb [q sd th] tr]; simpl in *; subst th.
  by split_and!.
Qed.

(** C10: without a queue (and without a drain thread, as the queue is only
    held while one runs) [purge_queue] returns at once, dereferences
    nothing, and leaves the state exactly as it was. *)
Theorem purge_queue_without_queue (w : world) :
  msg_queue (instance w) = None ->
  logging_thread (instance w) = false ->
  purge_queue w = Returns (tt, w).
Proof.
  intros Hq Hth. destruct w as [lvl cb [q sd th] tr]; simpl in *; subst.
  unfold purge_queue. run_M. by rewrite assert_true.
Qed.

(** The second purge of the disable path of [cubeb_log_set] is such a
    call: from a consistent state, after [stop] and the store of the
    callback the queue is released, and [purge_queue] changes nothing. *)
Lemma disable_path_second_purge (n : nat) (cb : cubeb_log_callback) (w : world) :
  consistent w ->
  exists w',
    (stop n ;; store_callback cb) w = Returns (tt, w') /\
    msg_queue (instance w') = None /\
    logging_thread (instance w') = false /\
    purge_queue w' = Returns (tt, w').
Proof.
  intros Hw. destruct (stop_returns n w Hw) as (w1 & Hstop & Hlg & _).
  unfold mbind at 1, M_bind. rewrite Hstop.
  destruct w1 as [lvl1 cb1 lg1 tr1]; simpl in Hlg; subst lg1.
  eexists. run_M. split; [reflexivity|]. split_and!; [done..|].
  unfold purge_queue. run_M. by rewrite assert_true.
Qed.

(** [stop] twice is [stop] once from every consistent state, running or
    not. *)
Lemma stop_twice (n n' : nat) (w : world) :
  consistent w -> (stop n ;; stop n') w = stop n w.
Proof.
  intros Hw. destruct (stop_returns n w Hw) as (w' & Hstop & Hlg & _).
  unfold mbind, M_bind. rewrite Hstop.
  rewrite stop_stopped by (by rewrite Hlg).
  destruct w' as [lvl cb lg tr]; simpl in Hlg; subst lg. done.
Qed.

Lemma start_stopped (w : world) :
  logging_thread (instance w) = false ->
  start w = Returns (tt,
    {| g_cubeb_log_level := g_cubeb_log_level w;
       g_cubeb_log_callback := g_cubeb_log_callback w;
       instance :=
         {| msg_queue := Some (new_lock_free_queue CUBEB_LOG_MESSAGE_QUEUE_DEPTH);
            shutdown_thread := false;
            logging_thread := true |};
       trace := trace w ++ [thread_started] |}).
Proof.
  destruct w as [lvl cb [q sd th] tr]; simpl. intros ->.
  unfold start, run. run_M.
  rewrite (bool_decide_eq_true_2 (is_Some (Some _))) by eauto.
  by rewrite !assert_true.
Qed.

(** Started twice, the logger ends the process: the assert of [run] in a
    debug build, the assignment to a joinable [std::thread] otherwise. *)
Lemma start_running (w : world) :
  logging_thread (instance w) = true -> start w = Aborted.
Proof.
  destruct w as [lvl cb [q sd th] tr]; simpl. intros ->.
  unfold start, run, assert. run_M. by destruct NDEBUG.
Qed.

(** ** cubeb_log_set *)

Lemma enable_condition_true (l : cubeb_log_level) (cb : cubeb_log_callback) :
  enable_condition l cb = true <-> cb <> nullptr /\ l <> CUBEB_LOG_DISABLED.
Proof.
  unfold enable_condition, is_set.
  rewrite andb_true_iff, !negb_true_iff, bool_decide_eq_false, Z.eqb_neq. done.
Qed.

Lemma disable_condition_true (cb : cubeb_log_callback) :
  disable_condition cb = true <-> cb = nullptr \/ CUBEB_LOG_DISABLED <> 0%Z.
Proof.
  unfold disable_condition, is_set.
  rewrite orb_true_iff, negb_involutive, negb_true_iff, bool_decide_eq_true, Z.eqb_neq.
  done.
Qed.

(** The final [else] is taken exactly for a callback that is set together
    with the level [CUBEB_LOG_DISABLED], when that enumerator is 0. *)
Lemma else_branch_taken (l : cubeb_log_level) (cb : cubeb_log_callback) :
  enable_condition l cb = false /\ disable_condition cb = false <->
  cb <> nullptr /\ l = CUBEB_LOG_DISABLED /\ CUBEB_LOG_DISABLED = 0%Z.
Proof.
  rewrite <- !not_true_iff_false, enable_condition_true, disable_condition_true.
  split.
  - intros [He Hd].
    destruct (decide (cb = nullptr)) as [|Hcb]; [by destruct Hd; left|].
    destruct (decide (CUBEB_LOG_DISABLED = 0%Z)) as [H0|]; [|by destruct Hd; right].
    destruct (decide (l = CUBEB_LOG_DISABLED)) as [|Hl]; [done | by destruct He].
  - intros (Hcb & Hl & H0). split; [by intros [_ []] | by intros [|]].
Qed.

(** The enable path from a stopped logger. *)
Lemma cubeb_log_set_enable_path (n : nat) (l : cubeb_log_level)
    (cb : cubeb_log_callback) (w : world) :
  enable_condition l cb = true ->
  logging_thread (instance w) = false ->
  cubeb_log_set n l cb w = Returns (tt,
    {| g_cubeb_log_level := l;
       g_cubeb_log_callback := cb;
       instance :=
         {| msg_queue := Some (new_lock_free_queue CUBEB_LOG_MESSAGE_QUEUE_DEPTH);
            shutdown_thread := false;
            logging_thread := true |};
       trace := trace w ++ [level_stored l; callback_stored cb; thread_started] |}).
Proof.
  intros He Hth. unfold cubeb_log_set. rewrite He.
  destruct w as [lvl cb0 lg tr]; simpl in Hth. run_M.
  rewrite start_stopped by done. run_M. by rewrite <- !app_assoc.
Qed.

(** C5 (as the code orders it): on the enable path, from a stopped logger,
    [cubeb_log_set] stores the level, then publishes the callback, and only
    then starts the asynchronous logger. *)
Theorem cubeb_log_set_publishes_then_starts (n : nat) (l : cubeb_log_level)
    (cb : cubeb_log_callback) (w : world) :
  cb <> nullptr ->
  l <> CUBEB_LOG_DISABLED ->
  logging_thread (instance w) = false ->
  exists w',
    cubeb_log_set n l cb w = Returns (tt, w') /\
    trace w' = trace w ++ [level_stored l; callback_stored cb; thread_started] /\
    precedes (callback_stored cb) thread_started
      (drop (length (trace w)) (trace w')) /\
    g_cubeb_log_level w' = l /\
    g_cubeb_log_callback w' = cb /\
    instance w' =
      {| msg_queue := Some (new_lock_free_queue CUBEB_LOG_MESSAGE_QUEUE_DEPTH);
         shutdown_thread := false;
         logging_thread := true |}.
Proof.
  intros Hcb Hl Hth.
  rewrite cubeb_log_set_enable_path by (by rewrite ?enable_condition_true).
  eexists. split; [reflexivity|]. simpl. split_and!; try done.
  rewrite drop_app_length. exists 1, 2. split_and!; [lia | done..].
Qed.

(** On the disable path, from a consistent state, [cubeb_log_set] returns
    with the logger stopped, the no-op callback published and the level
    stored. *)
Lemma cubeb_log_set_disable_path (n : nat) (l : cubeb_log_level)
    (cb : cubeb_log_callback) (w : world) :
  consistent w ->
  enable_condition l cb = false ->
  disable_condition cb = true ->
  exists w',
    cubeb_log_set n l cb w = Returns (tt, w') /\
    cubeb_log_get_callback w' = nullptr /\
    cubeb_log_get_level w' = l /\
    g_cubeb_log_callback w' = cubeb_noop_log_callback /\
    instance w' =
      {| msg_queue := None; shutdown_thread := true; logging_thread := false |}.
Proof.
  intros Hw He Hd. unfold cubeb_log_set. rewrite He, Hd.
  destruct w as [lvl cb0 lg tr].
  set (w0 := {| g_cubeb_log_level := l; g_cubeb_log_callback := cb0;
                instance := lg; trace := tr ++ [level_stored l] |}).
  assert (consistent w0) as Hw0 by exact Hw.
  destruct (stop_returns n w0 Hw0) as (w1 & Hstop & Hlg & Hlvl & _).
  run_M. fold w0. rewrite Hstop.
  destruct w1 as [lvl1 cb1 lg1 tr1]; simpl in Hlg, Hlvl; subst lg1 lvl1.
  run_M. unfold purge_queue. run_M. rewrite assert_true.
  eexists. split; [reflexivity|]. done.
Qed.

(** When [CUBEB_LOG_DISABLED] is not 0 the second condition always holds,
    and a disabled level with any callback takes the disable path. *)
Lemma cubeb_log_set_disabled_nonzero (n : nat) (cb : cubeb_log_callback) (w : world) :
  CUBEB_LOG_DISABLED <> 0%Z ->
  consistent w ->
  exists w',
    cubeb_log_set n CUBEB_LOG_DISABLED cb w = Returns (tt, w') /\
    cubeb_log_get_callback w' = nullptr /\
    cubeb_log_get_level w' = CUBEB_LOG_DISABLED.
Proof.
  intros Hd Hw.
  destruct (cubeb_log_set_disable_path n CUBEB_LOG_DISABLED cb w Hw)
    as (w' & Hrun & Hcb & Hlvl & _).
  - apply not_true_iff_false. rewrite enable_condition_true. by intros [_ []].
  - apply disable_condition_true. by right.
  - by exists w'.
Qed.

(** An absent callback takes the disable path at every level. *)
Lemma cubeb_log_set_absent_callback (n : nat) (l : cubeb_log_level) (w : world) :
  consistent w ->
  exists w',
    cubeb_log_set n l nullptr w = Returns (tt, w') /\
    cubeb_log_get_callback w' = nullptr /\
    cubeb_log_get_level w' = l.
Proof.
  intros Hw.
  destruct (cubeb_log_set_disable_path n l nullptr w Hw)
    as (w' & Hrun & Hcb & Hlvl & _); [done | done |].
  by exists w'.
Qed.

Lemma initial_world_consistent : consistent initial_world.
Proof. split; [done | by intros [=]]. Qed.

(** Every return of [cubeb_log_set] keeps the state consistent. *)
Lemma cubeb_log_set_consistent (n : nat) (l : cubeb_log_level)
    (cb : cubeb_log_callback) (w w' : world) :
  consistent w ->
  cubeb_log_set n l cb w = Returns (tt, w') ->
  consistent w'.
Proof.
  intros Hw Hrun.
  destruct (enable_condition l cb) eqn:He; [|destruct (disable_condition cb) eqn:Hd].
  - destruct (logging_thread (instance w)) eqn:Hth.
    + unfold cubeb_log_set in Hrun. rewrite He in Hrun. revert Hrun. run_M.
      by rewrite start_running.
    + rewrite cubeb_log_set_enable_path in Hrun by done.
      injection Hrun as <-. apply enable_condition_true in He as [Hcb _].
      by split.
  - destruct (cubeb_log_set_disable_path n l cb w Hw He Hd)
      as (w1 & Hrun1 & _ & _ & _ & Hlg1).
    rewrite Hrun in Hrun1. injection Hrun1 as <-.
    split; by rewrite Hlg1.
  - unfold cubeb_log_set in Hrun. rewrite He, Hd in Hrun. revert Hrun.
    unfold assert. run_M. rewrite orb_false_r. destruct NDEBUG; [|done].
    intros [= <-]. by destruct w.
Qed.

(** ** cubeb_log_get_callback *)

(** C6 (with the absent stored callback taken in): [cubeb_log_get_callback]
    returns null exactly when the stored callback is the no-op one or is
    itself null, as before the first [cubeb_log_set]; a stored callback
    other than the no-op one is returned unchanged; the no-op one is never
    returned. *)
Theorem cubeb_log_get_callback_spec (w : world) :
  (cubeb_log_get_callback w = nullptr <->
     g_cubeb_log_callback w = cubeb_noop_log_callback \/
     g_cubeb_log_callback w = nullptr) /\
  (g_cubeb_log_callback w = cubeb_noop_log_callback /\
     cubeb_log_get_callback w = nullptr \/
   g_cubeb_log_callback w <> cubeb_noop_log_callback /\
     cubeb_log_get_callback w = g_cubeb_log_callback w) /\
  cubeb_log_get_callback w <> cubeb_noop_log_callback.
Proof.
  unfold cubeb_log_get_callback. case_bool_decide as Hcb.
  - split_and!; [by split; [left|] | by left | done].
  - split_and!; [|by right | done].
    split; [by right | by intros [|]].
Qed.

(** ** The formatting entry points *)

Lemma vsnprintf_eq (buf fmt : list byte) (args : list vararg) :
  length buf = CUBEB_LOG_MESSAGE_MAX_SIZE ->
  vsnprintf buf CUBEB_LOG_MESSAGE_MAX_SIZE fmt args
  = take (CUBEB_LOG_MESSAGE_MAX_SIZE - 1) (format fmt args) ++
    NUL :: drop (S (Nat.min (length (format fmt args))
                            (CUBEB_LOG_MESSAGE_MAX_SIZE - 1))) buf.
Proof.
  intros Hbuf. unfold vsnprintf.
  rewrite PodCopy_insert by (unfold CUBEB_LOG_MESSAGE_MAX_SIZE in *; lia).
  f_equal. destruct (Nat.min_spec (length (format fmt args))
                       (CUBEB_LOG_MESSAGE_MAX_SIZE - 1)) as [[Hlt ->]|[Hge ->]]; [|done].
  by rewrite !take_ge by lia.
Qed.

(** What the buffer reads after [vsnprintf]: the rendering cut to the
    capacity less one. *)
Lemma vsnprintf_text (buf fmt : list byte) (args : list vararg) :
  length buf = CUBEB_LOG_MESSAGE_MAX_SIZE ->
  c_str (vsnprintf buf CUBEB_LOG_MESSAGE_MAX_SIZE fmt args)
  = c_str (take (CUBEB_LOG_MESSAGE_MAX_SIZE - 1) (format fmt args)).
Proof. intros Hbuf. by rewrite vsnprintf_eq, c_str_app_NUL. Qed.

Lemma vsnprintf_strlen (buf fmt : list byte) (args : list vararg) :
  length buf = CUBEB_LOG_MESSAGE_MAX_SIZE ->
  exists k, strlen (vsnprintf buf CUBEB_LOG_MESSAGE_MAX_SIZE fmt args) = Some k /\
            k < CUBEB_LOG_MESSAGE_MAX_SIZE.
Proof.
  intros Hbuf. rewrite vsnprintf_eq by done.
  set (text := take _ _). set (rest := drop _ buf).
  destruct (strlen_terminated (text ++ NUL :: rest) (length text)) as (k & Hk & Hle).
  - by rewrite list_lookup_middle.
  - exists k. split; [done|].
    assert (length text <= CUBEB_LOG_MESSAGE_MAX_SIZE - 1)
      by (unfold text; rewrite length_take; lia).
    unfold CUBEB_LOG_MESSAGE_MAX_SIZE in *. lia.
Qed.

(** [push] of a text shorter than the capacity, with a queue in place. *)
Lemma push_returns (uninit str : list byte) (k : nat) (q : lock_free_queue)
    (w : world) :
  length uninit = CUBEB_LOG_MESSAGE_MAX_SIZE ->
  strlen str = Some k ->
  k < CUBEB_LOG_MESSAGE_MAX_SIZE ->
  msg_queue (instance w) = Some q ->
  exists msg,
    c_str (get msg) = c_str str /\
    push uninit str w
    = Returns (tt, with_instance (set_msg_queue (Some (enqueue q msg).2) (instance w)) w).
Proof.
  intros Hbuf Hk Hlt Hq.
  destruct (strlen_Some str k Hk) as (rest & Hstr & Hlen & Hall).
  assert (cubeb_log_message_of uninit str
          = Returns {| storage := c_str str ++ NUL :: drop (S k) uninit |}) as Hmsg.
  { rewrite Hstr at 1. rewrite <- Hlen.
    apply cubeb_log_message_of_text; [done | lia | lia]. }
  exists {| storage := c_str str ++ NUL :: drop (S k) uninit |}.
  split; [by apply c_str_text|].
  destruct w as [lvl cb [oq sd th] tr]; simpl in Hq; subst oq.
  unfold push. run_M. by rewrite Hmsg.
Qed.

(** A full queue: the message is dropped and nothing changes. *)
Lemma push_full_queue (uninit str : list byte) (k : nat) (q : lock_free_queue)
    (w : world) :
  length uninit = CUBEB_LOG_MESSAGE_MAX_SIZE ->
  strlen str = Some k ->
  k < CUBEB_LOG_MESSAGE_MAX_SIZE ->
  msg_queue (instance w) = Some q ->
  capacity q <= length (items q) ->
  push uninit str w = Returns (tt, w).
Proof.
  intros Hbuf Hk Hlt Hq Hfull.
  destruct (push_returns uninit str k q w Hbuf Hk Hlt Hq) as (msg & _ & ->).
  unfold enqueue. rewrite (proj2 (Nat.ltb_ge _ _)) by done.
  destruct w as [lvl cb [oq sd th] tr]; simpl in Hq; subst oq. done.
Qed.

(** Neither entry point reads the level: run at another level, each does
    the same and leaves that level in place, in every state. *)
Lemma cubeb_log_internal_ignores_level (l : cubeb_log_level) (w : world)
    (uninit file fmt : list byte) (line : Z) (args : list vararg) :
  cubeb_log_internal uninit file line fmt args (with_level l w)
  = on_world (with_level l) (cubeb_log_internal uninit file line fmt args w).
Proof.
  destruct w as [lvl cb lg tr]. unfold cubeb_log_internal, call. run_M.
  by destruct cb.
Qed.

Lemma cubeb_async_log_ignores_level (l : cubeb_log_level) (w : world)
    (uninit_msg uninit_obj fmt : list byte) (args : list vararg) :
  cubeb_async_log uninit_msg uninit_obj fmt args (with_level l w)
  = on_world (with_level l) (cubeb_async_log uninit_msg uninit_obj fmt args w).
Proof.
  destruct w as [lvl cb [q sd th] tr]. unfold cubeb_async_log, push. run_M.
  destruct (cubeb_log_message_of _ _); [|done..]. by destruct q.
Qed.

(** C7: at every level [l], [cubeb_log_internal] calls the configured
    callback with the decorated template, the file, the line and the
    rendered text, and [cubeb_async_log] pushes a message holding the
    rendered text onto the queue; the level is neither read nor written. *)
Theorem entry_points_dispatch_at_every_level (l : cubeb_log_level) (w : world)
    (q : lock_free_queue) (uninit uninit_msg uninit_obj file fmt : list byte)
    (line : Z) (args : list vararg) :
  g_cubeb_log_callback w <> nullptr ->
  msg_queue (instance w) = Some q ->
  length uninit_msg = CUBEB_LOG_MESSAGE_MAX_SIZE ->
  length uninit_obj = CUBEB_LOG_MESSAGE_MAX_SIZE ->
  cubeb_log_internal uninit file line fmt args (with_level l w)
  = Returns (tt, with_level l (with_trace (trace w ++
      [callback_called (g_cubeb_log_callback w) (list_byte_of_string "%s:%d:%s")
         [va_str file; va_int line;
          va_str (c_str (vsnprintf uninit CUBEB_LOG_MESSAGE_MAX_SIZE fmt args))]]) w)) /\
  exists msg,
    c_str (get msg)
    = c_str (take (CUBEB_LOG_MESSAGE_MAX_SIZE - 1) (format fmt args)) /\
    cubeb_async_log uninit_msg uninit_obj fmt args (with_level l w)
    = Returns (tt, with_level l
        (with_instance (set_msg_queue (Some (enqueue q msg).2) (instance w)) w)).
Proof.
  intros Hcb Hq Hmsg Hobj. split.
  - destruct w as [lvl cb lg tr]; simpl in Hcb.
    unfold cubeb_log_internal, call. run_M. by destruct cb.
  - destruct (vsnprintf_strlen uninit_msg fmt args Hmsg) as (k & Hk & Hlt).
    destruct (push_returns uninit_obj _ k q (with_level l w) Hobj Hk Hlt)
      as (msg & Htext & Hpush); [by destruct w|].
    exists msg. split; [by rewrite Htext, vsnprintf_text|].
    unfold cubeb_async_log. rewrite Hpush. by destruct w.
Qed.

(** ** Steps of the process and what they keep *)

Lemma call_returns (cb : cubeb_log_callback) (fmt : list byte)
    (args : list vararg) (w w' : world) :
  call cb fmt args w = Returns (tt, w') ->
  cb <> nullptr /\ w' = with_trace (trace w ++ [callback_called cb fmt args]) w.
Proof. destruct cb; [done | |]; unfold call; run_M; by intros [= <-]. Qed.

Lemma cubeb_log_internal_returns (uninit file fmt : list byte) (line : Z)
    (args : list vararg) (w w' : world) :
  cubeb_log_internal uninit file line fmt args w = Returns (tt, w') ->
  instance w' = instance w /\
  g_cubeb_log_level w' = g_cubeb_log_level w /\
  g_cubeb_log_callback w' = g_cubeb_log_callback w.
Proof.
  unfold cubeb_log_internal. unfold mbind, M_bind, load_callback.
  intros H. apply call_returns in H as [_ ->]. by destruct w.
Qed.

Lemma push_inv (uninit str : list byte) (w w' : world) :
  push uninit str w = Returns (tt, w') ->
  exists q msg,
    msg_queue (instance w) = Some q /\
    w' = with_instance (set_msg_queue (Some (enqueue q msg).2) (instance w)) w.
Proof.
  destruct w as [lvl cb [[q|] sd th] tr]; unfold push; run_M;
    destruct (cubeb_log_message_of uninit str) as [msg| |]; try done.
  intros [= <-]. by exists q, msg.
Qed.

Lemma enqueue_bounded (q : lock_free_queue) (msg : cubeb_log_message) :
  capacity (enqueue q msg).2 = capacity q /\
  (length (items q) <= capacity q ->
   length (items (enqueue q msg).2) <= capacity q).
Proof.
  unfold enqueue. destruct (length (items q) <? capacity q) eqn:Hlt; simpl.
  - apply Nat.ltb_lt in Hlt. rewrite length_app. simpl. split; [done | lia].
  - done.
Qed.

Lemma reset_threads_returns (w w' : world) :
  cubeb_async_log_reset_threads w = Returns (tt, w') -> w' = w.
Proof.
  destruct w as [lvl cb [[q|] sd th] tr]; unfold cubeb_async_log_reset_threads,
    reset_producer_thread; run_M; case_bool_decide; try done; by intros [= <-].
Qed.

Lemma cubeb_log_set_bounded (n : nat) (l : cubeb_log_level)
    (cb : cubeb_log_callback) (w w' : world) :
  consistent w ->
  queue_bounded w ->
  cubeb_log_set n l cb w = Returns (tt, w') ->
  queue_bounded w'.
Proof.
  intros Hw Hb Hrun.
  destruct (enable_condition l cb) eqn:He; [|destruct (disable_condition cb) eqn:Hd].
  - destruct (logging_thread (instance w)) eqn:Hth.
    + unfold cubeb_log_set in Hrun. rewrite He in Hrun. revert Hrun. run_M.
      by rewrite start_running.
    + rewrite cubeb_log_set_enable_path in Hrun by done.
      injection Hrun as <-. intros q [= <-]. simpl. split; [done | lia].
  - destruct (cubeb_log_set_disable_path n l cb w Hw He Hd)
      as (w1 & Hrun1 & _ & _ & _ & Hlg1).
    rewrite Hrun in Hrun1. injection Hrun1 as <-.
    intros q. by rewrite Hlg1.
  - unfold cubeb_log_set in Hrun. rewrite He, Hd in Hrun. revert Hrun.
    unfold assert. run_M. rewrite orb_false_r. destruct NDEBUG; [|done].
    intros [= <-]. by destruct w.
Qed.

Lemma step_keeps (w w' : world) :
  consistent w /\ queue_bounded w ->
  step w w' ->
  consistent w' /\ queue_bounded w'.
Proof.
  intros [Hw Hb] Hstep. destruct Hstep as
    [n l cb w w' Hrun | uninit file line fmt args w w' Hrun
    | um uo fmt args w w' Hrun | w w' Hrun | n w w' Hth Hrun].
  - split; [by eapply cubeb_log_set_consistent | by eapply cubeb_log_set_bounded].
  - apply cubeb_log_internal_returns in Hrun as (Hlg & _ & Hcb).
    unfold consistent, queue_bounded. by rewrite Hlg, Hcb.
  - apply push_inv in Hrun as (q & msg & Hq & ->).
    destruct (enqueue_bounded q msg) as [Hcap Hlen].
    destruct (Hb q Hq) as [Hc Hl].
    destruct w as [lvl cb [oq sd th] tr]; simpl in *; subst oq. split.
    + by destruct Hw as [Hw1 Hw2].
    + intros q' [= <-]. rewrite Hcap. split; [done|]. rewrite <- Hc. apply Hlen. lia.
  - by apply reset_threads_returns in Hrun as ->.
  - destruct Hw as [Hw1 Hw2]. specialize (Hw2 Hth).
    destruct (msg_queue (instance w)) as [q|] eqn:Hq;
      [|by rewrite Hth, bool_decide_eq_false_2 in Hw1 by (by intros [? ?])].
    destruct (drain_returns n w q Hq Hw2)
      as (w1 & q' & Hrun1 & Hq' & Hcap & Hitems & _ & Hth' & _ & Hcb & _).
    rewrite Hrun in Hrun1. injection Hrun1 as <-.
    destruct (Hb q Hq) as [Hc Hl]. split.
    + split; [|by rewrite Hcb].
      by rewrite Hq', Hth', Hth, bool_decide_eq_true_2 by eauto.
    + intros q''. rewrite Hq'. intros [= <-]. rewrite Hcap, Hitems, length_drop.
      split; [done | lia].
Qed.

Lemma initial_world_bounded : queue_bounded initial_world.
Proof. by intros q. Qed.

(** Every state the process reaches keeps the queue exactly while the drain
    thread is joinable, has a callback whenever that thread runs, and holds
    at most [CUBEB_LOG_MESSAGE_QUEUE_DEPTH] messages in a queue of that
    depth. *)
Theorem reachable_invariant (w : world) :
  reachable w ->
  consistent w /\ queue_bounded w.
Proof.
  unfold reachable. intros Hreach.
  revert w Hreach.
  apply (rtc_ind_r (R := step) (fun w => consistent w /\ queue_bounded w)).
  - split; [apply initial_world_consistent | apply initial_world_bounded].
  - intros w1 w2 _ Hstep IH. by apply (step_keeps w1 w2).
Qed.

Lemma reachable_consistent_aux (w : world) : reachable w -> consistent w.
Proof.
  unfold reachable. revert w.
  assert (forall w, rtc step initial_world w -> consistent w /\ queue_bounded w) as H.
  { apply (rtc_ind_r (R := step) (fun w => consistent w /\ queue_bounded w)).
    - split; [apply initial_world_consistent | apply initial_world_bounded].
    - intros w1 w2 _ Hstep IH. by apply (step_keeps w1 w2). }
  intros w Hw. by destruct (H w Hw).
Qed.

Lemma step_keeps_callback (w w' : world) :
  consistent w ->
  step w w' ->
  g_cubeb_log_callback w <> nullptr ->
  g_cubeb_log_callback w' <> nullptr.
Proof.
  intros Hw Hstep Hcb. destruct Hstep as
    [n l cb w w' Hrun | uninit file line fmt args w w' Hrun
    | um uo fmt args w w' Hrun | w w' Hrun | n w w' Hth Hrun].
  - destruct (enable_condition l cb) eqn:He; [|destruct (disable_condition cb) eqn:Hd].
    + destruct (logging_thread (instance w)) eqn:Hth.
      * unfold cubeb_log_set in Hrun. rewrite He in Hrun. revert Hrun. run_M.
        by rewrite start_running.
      * rewrite cubeb_log_set_enable_path in Hrun by done.
        injection Hrun as <-. by apply enable_condition_true in He as [? _].
    + destruct (cubeb_log_set_disable_path n l cb w Hw He Hd)
        as (w1 & Hrun1 & _ & _ & Hcb1 & _).
      rewrite Hrun in Hrun1. injection Hrun1 as <-. by rewrite Hcb1.
    + unfold cubeb_log_set in Hrun. rewrite He, Hd in Hrun. revert Hrun.
      unfold assert. run_M. rewrite orb_false_r. destruct NDEBUG; [|done].
      intros [= <-]. by destruct w.
  - apply cubeb_log_internal_returns in Hrun as (_ & _ & Hcb'). by rewrite Hcb'.
  - apply push_inv in Hrun as (q & msg & _ & ->). by destruct w.
  - by apply reset_threads_returns in Hrun as ->.
  - destruct Hw as [Hw1 _].
    destruct (msg_queue (instance w)) as [q|] eqn:Hq;
      [|by rewrite Hth, bool_decide_eq_false_2 in Hw1 by (by intros [? ?])].
    destruct (drain_returns n w q Hq Hcb)
      as (w1 & q' & Hrun1 & _ & _ & _ & _ & _ & _ & Hcb' & _).
    rewrite Hrun in Hrun1. injection Hrun1 as <-. by rewrite Hcb'.
Qed.

(** Once a callback is stored, whatever the process does next, the stored
    callback is never null again. *)
Theorem callback_never_null_again (w w' : world) :
  reachable w ->
  g_cubeb_log_callback w <> nullptr ->
  rtc step w w' ->
  g_cubeb_log_callback w' <> nullptr.
Proof.
  intros Hreach Hcb Hsteps.
  assert (reachable w' /\ g_cubeb_log_callback w' <> nullptr) as [_ ?]; [|done].
  revert w' Hsteps.
  apply (rtc_ind_r (R := step)
           (fun w' => reachable w' /\ g_cubeb_log_callback w' <> nullptr)); [done|].
  intros w1 w2 _ Hstep [Hr1 Hcb1]. split.
  - by eapply rtc_r.
  - apply (step_keeps_callback w1 w2); [|done..].
    apply reachable_consistent_aux. done.
Qed.

(** ** More on the life cycle of the logger *)

(** Enabling logging while the logger runs ends the process, in both
    builds: [start] is entered with a joinable thread. *)
Theorem cubeb_log_set_enable_while_running (n : nat) (l : cubeb_log_level)
    (cb : cubeb_log_callback) (w : world) :
  cb <> nullptr ->
  l <> CUBEB_LOG_DISABLED ->
  logging_thread (instance w) = true ->
  cubeb_log_set n l cb w = Aborted.
Proof.
  intros Hcb Hl Hth. unfold cubeb_log_set.
  rewrite (proj2 (enable_condition_true l cb)) by done.
  run_M. by rewrite start_running.
Qed.

(** [stop] on a running logger, exactly. *)
Lemma stop_running (n : nat) (w : world) (q : lock_free_queue) :
  msg_queue (instance w) = Some q ->
  logging_thread (instance w) = true ->
  g_cubeb_log_callback w <> nullptr ->
  stop n w = Returns (tt,
    {| g_cubeb_log_level := g_cubeb_log_level w;
       g_cubeb_log_callback := g_cubeb_log_callback w;
       instance := {| msg_queue := None; shutdown_thread := true;
                      logging_thread := false |};
       trace := trace w ++
         map (fun msg => callback_called (g_cubeb_log_callback w) (c_str (get msg)) [])
             (take n (items q)) ++ [thread_joined] |}).
Proof.
  intros Hq Hth Hcb.
  destruct w as [lvl cb [oq sd th] tr]; simpl in *; subst oq th.
  set (w0 := {| g_cubeb_log_level := lvl; g_cubeb_log_callback := cb;
                instance := {| msg_queue := Some q; shutdown_thread := true;
                               logging_thread := true |};
                trace := tr |}).
  destruct (drain_returns n w0 q eq_refl Hcb) as
    (w' & q' & Hrun & Hq' & _ & _ & Hsd & Hth' & Hlvl & Hcb' & Htr).
  unfold stop. run_M. fold w0. rewrite Hrun. run_M.
  rewrite Hq'. unfold purge_queue. run_M. rewrite assert_true.
  simpl in *. by rewrite Hsd, Hlvl, Hcb', Htr, <- app_assoc.
Qed.

(** [stop] on a running logger forwards the first [n] queued messages to
    the callback in queue order, joins the thread, and discards the rest:
    no callback is called for them and the queue is released. *)
Theorem stop_forwards_then_discards (n : nat) (w : world) (q : lock_free_queue) :
  msg_queue (instance w) = Some q ->
  logging_thread (instance w) = true ->
  g_cubeb_log_callback w <> nullptr ->
  exists w',
    stop n w = Returns (tt, w') /\
    trace w' = trace w ++
      map (fun msg => callback_called (g_cubeb_log_callback w) (c_str (get msg)) [])
          (take n (items q)) ++ [thread_joined] /\
    msg_queue (instance w') = None /\
    logging_thread (instance w') = false /\
    shutdown_thread (instance w') = true.
Proof.
  intros Hq Hth Hcb. rewrite (stop_running n w q) by done.
  eexists. split; [reflexivity|]. by simpl.
Qed.

(** Disabling with an absent callback while the logger runs: the level is
    stored, the drain thread forwards to the old callback and is joined,
    and only then the no-op callback is published. *)
Theorem cubeb_log_set_disable_order (n : nat) (l : cubeb_log_level)
    (w : world) (q : lock_free_queue) :
  msg_queue (instance w) = Some q ->
  logging_thread (instance w) = true ->
  g_cubeb_log_callback w <> nullptr ->
  exists w',
    cubeb_log_set n l nullptr w = Returns (tt, w') /\
    trace w' = trace w ++ [level_stored l] ++
      map (fun msg => callback_called (g_cubeb_log_callback w) (c_str (get msg)) [])
          (take n (items q)) ++
      [thread_joined; callback_stored cubeb_noop_log_callback] /\
    g_cubeb_log_callback w' = cubeb_noop_log_callback /\
    msg_queue (instance w') = None.
Proof.
  intros Hq Hth Hcb. unfold cubeb_log_set.
  assert (enable_condition l nullptr = false) as -> by done.
  assert (disable_condition nullptr = true) as -> by done.
  destruct w as [lvl cb lg tr]; simpl in *.
  run_M.
  rewrite (stop_running n _ q) by done. run_M.
  unfold purge_queue. run_M. rewrite assert_true.
  eexists. split; [reflexivity|]. simpl.
  split; [|done]. by rewrite <- !app_assoc.
Qed.

(** After [stop], [start] succeeds from every consistent state: the logger
    runs again on a fresh, empty queue; level and callback are as before. *)
Theorem stop_then_start (n : nat) (w : world) :
  consistent w ->
  exists w',
    (stop n ;; start) w = Returns (tt, w') /\
    instance w' =
      {| msg_queue := Some (new_lock_free_queue CUBEB_LOG_MESSAGE_QUEUE_DEPTH);
         shutdown_thread := false;
         logging_thread := true |} /\
    g_cubeb_log_level w' = g_cubeb_log_level w /\
    g_cubeb_log_callback w' = g_cubeb_log_callback w.
Proof.
  intros Hw. destruct (stop_returns n w Hw) as (w1 & Hstop & Hlg & Hlvl & Hcb).
  unfold mbind, M_bind. rewrite Hstop.
  rewrite start_stopped by (by rewrite Hlg).
  eexists. split; [reflexivity|]. by simpl.
Qed.

(** With the drain thread stopped and a queue in place, [purge_queue]
    empties the queue and calls no callback. *)
Theorem purge_queue_discards (w : world) (q : lock_free_queue) :
  msg_queue (instance w) = Some q ->
  logging_thread (instance w) = false ->
  purge_queue w = Returns (tt,
    {| g_cubeb_log_level := g_cubeb_log_level w;
       g_cubeb_log_callback := g_cubeb_log_callback w;
       instance := {| msg_queue := Some {| capacity := capacity q; items := [] |};
                      shutdown_thread := shutdown_thread (instance w);
                      logging_thread := false |};
       trace := trace w |}).
Proof.
  intros Hq Hth. destruct w as [lvl cb [oq sd th] tr]; simpl in *; subst.
  unfold purge_queue. run_M. by rewrite assert_true, dequeue_all_nil.
Qed.

(** From a consistent state every return of [cubeb_log_set] leaves the
    level it was given, whichever branch ran. *)
Theorem cubeb_log_set_stores_level (n : nat) (l : cubeb_log_level)
    (cb : cubeb_log_callback) (w w' : world) :
  consistent w ->
  cubeb_log_set n l cb w = Returns (tt, w') ->
  cubeb_log_get_level w' = l.
Proof.
  intros Hw Hrun.
  destruct (enable_condition l cb) eqn:He; [|destruct (disable_condition cb) eqn:Hd].
  - destruct (logging_thread (instance w)) eqn:Hth.
    + unfold cubeb_log_set in Hrun. rewrite He in Hrun. revert Hrun. run_M.
      by rewrite start_running.
    + rewrite cubeb_log_set_enable_path in Hrun by done. by injection Hrun as <-.
  - destruct (cubeb_log_set_disable_path n l cb w Hw He Hd)
      as (w1 & Hrun1 & _ & Hlvl & _).
    rewrite Hrun in Hrun1. by injection Hrun1 as <-.
  - unfold cubeb_log_set in Hrun. rewrite He, Hd in Hrun. revert Hrun.
    unfold assert. run_M. rewrite orb_false_r. destruct NDEBUG; [|done].
    by intros [= <-].
Qed.

(** Enabling with a callback and reading it back: [cubeb_log_get_callback]
    returns the callback that was set, except that the no-op callback,
    passed as the callback, starts the logger and reads back as null. *)
Theorem cubeb_log_set_then_get_callback (n : nat) (l : cubeb_log_level)
    (cb : cubeb_log_callback) (w : world) :
  cb <> nullptr ->
  l <> CUBEB_LOG_DISABLED ->
  logging_thread (instance w) = false ->
  exists w',
    cubeb_log_set n l cb w = Returns (tt, w') /\
    logging_thread (instance w') = true /\
    cubeb_log_get_callback w'
    = if bool_decide (cb = cubeb_noop_log_callback) then nullptr else cb.
Proof.
  intros Hcb Hl Hth.
  rewrite cubeb_log_set_enable_path by (by rewrite ?enable_condition_true).
  eexists. split; [reflexivity|]. by simpl.
Qed.


(** ** Messages on their way through the queue *)

(** A default-constructed message reads as the empty text, whatever its
    storage held. *)
Theorem cubeb_log_message_default_empty (uninit : list byte) :
  length uninit = CUBEB_LOG_MESSAGE_MAX_SIZE ->
  c_str (get (cubeb_log_message_default uninit)) = [] /\
  length (get (cubeb_log_message_default uninit)) = CUBEB_LOG_MESSAGE_MAX_SIZE.
Proof.
  intros Hlen. unfold get, cubeb_log_message_default; simpl storage.
  rewrite length_insert. split; [|done].
  by destruct uninit.
Qed.

(** [push] of a short text onto a queue with room, then the drain thread
    for as many messages as are queued. *)
Lemma push_drain (uninit str : list byte) (k : nat) (q : lock_free_queue)
    (w : world) :
  length uninit = CUBEB_LOG_MESSAGE_MAX_SIZE ->
  strlen str = Some k ->
  k < CUBEB_LOG_MESSAGE_MAX_SIZE ->
  msg_queue (instance w) = Some q ->
  length (items q) < capacity q ->
  g_cubeb_log_callback w <> nullptr ->
  exists w' q',
    (push uninit str ;; drain (S (length (items q)))) w = Returns (tt, w') /\
    trace w' = trace w ++
      map (fun msg => callback_called (g_cubeb_log_callback w) (c_str (get msg)) [])
          (items q) ++
      [callback_called (g_cubeb_log_callback w) (c_str str) []] /\
    msg_queue (instance w') = Some q' /\
    items q' = [] /\
    capacity q' = capacity q /\
    g_cubeb_log_level w' = g_cubeb_log_level w /\
    g_cubeb_log_callback w' = g_cubeb_log_callback w.
Proof.
  intros Hbuf Hk Hlt Hq Hroom Hcb.
  destruct (push_returns uninit str k q w Hbuf Hk Hlt Hq) as (msg & Htext & Hpush).
  unfold mbind, M_bind. rewrite Hpush.
  unfold enqueue. rewrite (proj2 (Nat.ltb_lt _ _)) by done. simpl snd.
  set (q1 := {| capacity := capacity q; items := items q ++ [msg] |}).
  set (w1 := with_instance _ w).
  destruct (drain_returns (S (length (items q))) w1 q1)
    as (w' & q' & Hrun & Hq' & Hcap & Hitems & _ & _ & Hlvl & Hcb' & Htr);
    [by destruct w | by destruct w |].
  exists w', q'. split; [done|].
  assert (trace w1 = trace w) as Htr1 by (by destruct w).
  assert (g_cubeb_log_callback w1 = g_cubeb_log_callback w) as Hcb1 by (by destruct w).
  assert (g_cubeb_log_level w1 = g_cubeb_log_level w) as Hlvl1 by (by destruct w).
  rewrite Htr, Htr1, Hcb1, Hlvl, Hcb', Hlvl1, Hcb1. simpl items in *.
  rewrite take_ge in Htr |- * by (rewrite length_app; simpl; lia).
  rewrite drop_ge in Hitems by (rewrite length_app; simpl; lia).
  rewrite map_app. simpl. rewrite Htext. by split_and!.
Qed.

(** Messages leave the queue in the order they were pushed: after a
    [push], the drain thread calls the callback on the entries that were
    queued before, in order, and then on the text just pushed. *)
Theorem push_then_drain_fifo (uninit m rest : list byte) (q : lock_free_queue)
    (w : world) :
  length uninit = CUBEB_LOG_MESSAGE_MAX_SIZE ->
  Forall (fun c => c <> NUL) m ->
  length m < CUBEB_LOG_MESSAGE_MAX_SIZE ->
  msg_queue (instance w) = Some q ->
  length (items q) < capacity q ->
  g_cubeb_log_callback w <> nullptr ->
  exists w',
    (push uninit (m ++ NUL :: rest) ;; drain (S (length (items q)))) w
    = Returns (tt, w') /\
    trace w' = trace w ++
      map (fun msg => callback_called (g_cubeb_log_callback w) (c_str (get msg)) [])
          (items q) ++
      [callback_called (g_cubeb_log_callback w) m []].
Proof.
  intros Hbuf Hm Hlen Hq Hroom Hcb.
  destruct (push_drain uninit (m ++ NUL :: rest) (length m) q w)
    as (w' & q' & Hrun & Htr & _); try done.
  - by apply strlen_text.
  - exists w'. split; [done|]. by rewrite Htr, c_str_text.
Qed.

(** A message logged with [cubeb_async_log] on a running logger with an
    empty queue reaches the callback at the next pass of the drain thread:
    the callback is called once, with the rendered text (cut to the
    capacity less one, and at its first NUL) and no further arguments. *)
Theorem cubeb_async_log_delivered (uninit_msg uninit_obj fmt : list byte)
    (args : list vararg) (q : lock_free_queue) (w : world) :
  length uninit_msg = CUBEB_LOG_MESSAGE_MAX_SIZE ->
  length uninit_obj = CUBEB_LOG_MESSAGE_MAX_SIZE ->
  msg_queue (instance w) = Some q ->
  items q = [] ->
  0 < capacity q ->
  g_cubeb_log_callback w <> nullptr ->
  exists w',
    (cubeb_async_log uninit_msg uninit_obj fmt args ;; drain 1) w = Returns (tt, w') /\
    trace w' = trace w ++
      [callback_called (g_cubeb_log_callback w)
         (c_str (take (CUBEB_LOG_MESSAGE_MAX_SIZE - 1) (format fmt args))) []] /\
    msg_queue (instance w') = Some q.
Proof.
  intros Hmsg Hobj Hq Hempty Hcap Hcb.
  destruct (vsnprintf_strlen uninit_msg fmt args Hmsg) as (k & Hk & Hlt).
  destruct (push_drain uninit_obj _ k q w Hobj Hk Hlt Hq)
    as (w' & q' & Hrun & Htr & Hq' & Hitems & Hcap' & _);
    [rewrite Hempty; simpl; lia | done |].
  rewrite Hempty in Hrun, Htr. simpl in Hrun, Htr.
  exists w'. unfold cubeb_async_log. split; [done|].
  rewrite Htr, vsnprintf_text by done. split; [done|].
  rewrite Hq'. f_equal.
  destruct q as [cap its], q' as [cap' its']; simpl in *. by subst.
Qed.

(** Without a queue (the logger was not started, or was stopped)
    [cubeb_async_log] dereferences the empty queue pointer, in both builds
    and for every template. *)
Theorem cubeb_async_log_without_queue (uninit_msg uninit_obj fmt : list byte)
    (args : list vararg) (w : world) :
  length uninit_msg = CUBEB_LOG_MESSAGE_MAX_SIZE ->
  msg_queue (instance w) = None ->
  cubeb_async_log uninit_msg uninit_obj fmt args w = Undefined.
Proof.
  intros Hmsg Hq.
  destruct (vsnprintf_strlen uninit_msg fmt args Hmsg) as (k & Hk & Hlt).
  unfold cubeb_async_log, push, cubeb_log_message_of. rewrite Hk.
  rewrite (proj2 (Nat.ltb_lt k _) Hlt), assert_true.
  destruct w as [lvl cb [oq sd th] tr]; simpl in Hq; subst oq.
  by destruct (CUBEB_LOG_MESSAGE_MAX_SIZE - 1 <? k).
Qed.

(** With no callback stored (before the first [cubeb_log_set])
    [cubeb_log_internal] calls through a null pointer. *)
Theorem cubeb_log_internal_without_callback (uninit file fmt : list byte)
    (line : Z) (args : list vararg) (w : world) :
  g_cubeb_log_callback w = nullptr ->
  cubeb_log_internal uninit file line fmt args w = Undefined.
Proof.
  intros Hcb. destruct w as [lvl cb lg tr]; simpl in Hcb; subst cb.
  by unfold cubeb_log_internal.
Qed.

End Build.

(** C3 (the code leaves the storage of an oversize message untouched):
    for the text of 256 bytes and a slot that held "stale", the release
    build returns a message that reads "stale", not the empty string, and
    the debug build aborts on the assert. *)
Theorem cubeb_log_message_oversize_not_empty :
  strlen oversize_str = Some CUBEB_LOG_MESSAGE_MAX_SIZE /\
  length stale_bytes = CUBEB_LOG_MESSAGE_MAX_SIZE /\
  (exists msg,
      cubeb_log_message_of release_build stale_bytes oversize_str = Returns msg /\
      c_str (get msg) = list_byte_of_string "stale") /\
  cubeb_log_message_of debug_build stale_bytes oversize_str = Aborted.
Proof.
  split_and!; [by vm_compute | by vm_compute | | by vm_compute].
  eexists. split; by vm_compute.
Qed.

Lemma cubeb_log_message_round_trip_witness :
  exists msg,
    cubeb_log_message_of debug_build stale_bytes
      (list_byte_of_string "x=5" ++ NUL :: list_byte_of_string "tail") = Returns msg /\
    c_str (get msg) = list_byte_of_string "x=5" /\
    length (get msg) = CUBEB_LOG_MESSAGE_MAX_SIZE.
Proof.
  apply (cubeb_log_message_round_trip debug_build stale_bytes
           (list_byte_of_string "x=5")).
  - reflexivity.
  - repeat constructor; discriminate.
  - vm_compute. lia.
Defined.

(** ** The configuration at concrete inputs *)

Lemma running_world_reached (ndebug : bool) :
  cubeb_log_set ndebug LOG_DISABLED_0 0 LOG_NORMAL_1 (callback_at 1) initial_world
  = Returns (tt, running_world).
Proof. by destruct ndebug. Qed.

Lemma running_world_consistent : consistent running_world.
Proof. split; [done | by intros _ [=]]. Qed.

(** C1 (what the code does for a callback that is set, passed with the
    disabled level): [cubeb_log_set(CUBEB_LOG_DISABLED, callback_at 2)]
    takes the final [else].  Called after logging was enabled with
    [callback_at 1], the release build returns with the level stored and
    nothing else done: [cubeb_log_get_callback] still returns
    [callback_at 1], the drain thread still runs and the queue is still
    held.  Called on the initial state, it leaves the stored callback null:
    the no-op callback is not published.  The debug build aborts on the
    assert in both cases. *)
Theorem cubeb_log_set_disabled_with_callback :
  (exists w',
      cubeb_log_set release_build LOG_DISABLED_0 0 LOG_DISABLED_0 (callback_at 2)
        running_world = Returns (tt, w') /\
      cubeb_log_get_level w' = LOG_DISABLED_0 /\
      cubeb_log_get_callback w' = callback_at 1 /\
      logging_thread (instance w') = true /\
      msg_queue (instance w') = msg_queue (instance running_world)) /\
  (exists w',
      cubeb_log_set release_build LOG_DISABLED_0 0 LOG_DISABLED_0 (callback_at 2)
        initial_world = Returns (tt, w') /\
      g_cubeb_log_callback w' = nullptr) /\
  cubeb_log_set debug_build LOG_DISABLED_0 0 LOG_DISABLED_0 (callback_at 2)
    running_world = Aborted /\
  cubeb_log_set debug_build LOG_DISABLED_0 0 LOG_DISABLED_0 (callback_at 2)
    initial_world = Aborted.
Proof.
  split_and!; [eexists; split; [reflexivity|] | eexists; split; [reflexivity|] | |];
    by vm_compute.
Qed.

(** C2 (the final [else] of the code is live): with [CUBEB_LOG_DISABLED]
    equal to 0, for the disabled level and a callback that is set neither
    the condition of the [if] nor that of the [else if] holds; the debug
    build aborts on [assert(false)], the release build returns having
    stored the level only. *)
Theorem cubeb_log_set_else_branch_reached :
  enable_condition LOG_DISABLED_0 LOG_DISABLED_0 (callback_at 1) = false /\
  disable_condition LOG_DISABLED_0 (callback_at 1) = false /\
  cubeb_log_set debug_build LOG_DISABLED_0 0 LOG_DISABLED_0 (callback_at 1)
    initial_world = Aborted /\
  cubeb_log_set release_build LOG_DISABLED_0 0 LOG_DISABLED_0 (callback_at 1)
    initial_world
  = Returns (tt, with_trace [level_stored LOG_DISABLED_0] initial_world).
Proof. by split_and!. Qed.

(** C5 as the spec states it does not hold: enabling logging on the initial state, the
    start of the logger does not come before the publication of the
    callback in the events of that call. *)
Lemma start_does_not_precede_publication :
  cubeb_log_set release_build LOG_DISABLED_0 0 LOG_NORMAL_1 (callback_at 1)
    initial_world = Returns (tt, running_world) /\
  ~ precedes thread_started (callback_stored (callback_at 1))
      (drop (length (trace initial_world)) (trace running_world)).
Proof.
  split; [done|]. intros (i & j & Hlt & Hi & Hj). simpl in Hi, Hj.
  destruct i as [|[|[|i]]]; try done.
  destruct j as [|[|[|j]]]; try done; lia.
Qed.

Lemma cubeb_log_set_publishes_then_starts_witness :
  exists w',
    cubeb_log_set release_build LOG_DISABLED_0 0 LOG_NORMAL_1 (callback_at 1)
      initial_world = Returns (tt, w') /\
    trace w' = trace initial_world ++
      [level_stored LOG_NORMAL_1; callback_stored (callback_at 1); thread_started] /\
    precedes (callback_stored (callback_at 1)) thread_started
      (drop (length (trace initial_world)) (trace w')) /\
    g_cubeb_log_level w' = LOG_NORMAL_1 /\
    g_cubeb_log_callback w' = callback_at 1 /\
    instance w' =
      {| msg_queue := Some (new_lock_free_queue CUBEB_LOG_MESSAGE_QUEUE_DEPTH);
         shutdown_thread := false;
         logging_thread := true |}.
Proof.
  apply (cubeb_log_set_publishes_then_starts release_build LOG_DISABLED_0 0
           LOG_NORMAL_1 (callback_at 1) initial_world).
  - discriminate.
  - discriminate.
  - reflexivity.
Defined.

(** C6 as the spec states it does not hold: before the first [cubeb_log_set] the stored
    callback is null; [cubeb_log_get_callback] returns null although the
    stored callback is not the no-op one. *)
Lemma cubeb_log_get_callback_absent_initially :
  ~ (cubeb_log_get_callback initial_world = nullptr <->
     g_cubeb_log_callback initial_world = cubeb_noop_log_callback).
Proof. intros [H _]. by specialize (H eq_refl). Qed.

Lemma entry_points_dispatch_witness :
  cubeb_log_internal format_verbatim stale_bytes (list_byte_of_string "a.cpp") 7%Z
    (list_byte_of_string "x=5") [] (with_level 2%Z running_world)
  = Returns (tt, with_level 2%Z (with_trace (trace running_world ++
      [callback_called (g_cubeb_log_callback running_world)
         (list_byte_of_string "%s:%d:%s")
         [va_str (list_byte_of_string "a.cpp"); va_int 7%Z;
          va_str (c_str (vsnprintf format_verbatim stale_bytes
                           CUBEB_LOG_MESSAGE_MAX_SIZE
                           (list_byte_of_string "x=5") []))]]) running_world)) /\
  exists msg,
    c_str (get msg)
    = c_str (take (CUBEB_LOG_MESSAGE_MAX_SIZE - 1)
               (format_verbatim (list_byte_of_string "x=5") [])) /\
    cubeb_async_log debug_build format_verbatim stale_bytes stale_bytes
      (list_byte_of_string "x=5") [] (with_level 2%Z running_world)
    = Returns (tt, with_level 2%Z
        (with_instance
           (set_msg_queue
              (Some (enqueue (new_lock_free_queue CUBEB_LOG_MESSAGE_QUEUE_DEPTH) msg).2)
              (instance running_world)) running_world)).
Proof.
  apply (entry_points_dispatch_at_every_level debug_build format_verbatim 2%Z
           running_world (new_lock_free_queue CUBEB_LOG_MESSAGE_QUEUE_DEPTH)
           stale_bytes stale_bytes stale_bytes).
  - discriminate.
  - reflexivity.
  - reflexivity.
  - reflexivity.
Defined.

Lemma stop_idempotent_when_stopped_witness :
  exists w',
    stop debug_build 3 initial_world = Returns (tt, w') /\
    msg_queue (instance w') = msg_queue (instance initial_world) /\
    logging_thread (instance w') = logging_thread (instance initial_world) /\
    shutdown_thread (instance w') = true /\
    g_cubeb_log_level w' = g_cubeb_log_level initial_world /\
    g_cubeb_log_callback w' = g_cubeb_log_callback initial_world /\
    trace w' = trace initial_world /\
    stop debug_build 5 w' = Returns (tt, w') /\
    (stop debug_build 3 ;; stop debug_build 5) initial_world
    = stop debug_build 3 initial_world.
Proof.
  apply (stop_idempotent_when_stopped debug_build 3 5 initial_world). reflexivity.
Defined.

Lemma purge_queue_without_queue_witness :
  purge_queue debug_build initial_world = Returns (tt, initial_world).
Proof.
  apply (purge_queue_without_queue debug_build initial_world); reflexivity.
Defined.

(** ** The further properties at concrete inputs *)

Lemma cubeb_log_message_default_empty_witness :
  c_str (get (cubeb_log_message_default stale_bytes)) = [] /\
  length (get (cubeb_log_message_default stale_bytes)) = CUBEB_LOG_MESSAGE_MAX_SIZE.
Proof. apply (cubeb_log_message_default_empty stale_bytes). reflexivity. Defined.

Lemma cubeb_log_message_oversize_witness :
  cubeb_log_message_of release_build stale_bytes oversize_str
  = Returns {| storage := stale_bytes |}.
Proof.
  apply (cubeb_log_message_oversize release_build stale_bytes oversize_str
           CUBEB_LOG_MESSAGE_MAX_SIZE).
  - reflexivity.
  - reflexivity.
Defined.

Lemma push_full_queue_witness :
  push debug_build stale_bytes (list_byte_of_string "late" ++ [NUL]) full_world
  = Returns (tt, full_world).
Proof.
  apply (push_full_queue debug_build stale_bytes _ 4 full_queue full_world).
  - reflexivity.
  - reflexivity.
  - vm_compute. lia.
  - reflexivity.
  - reflexivity.
Defined.

Lemma push_then_drain_fifo_witness :
  exists w',
    (push debug_build stale_bytes (list_byte_of_string "three" ++ NUL :: []) ;;
     drain 3) busy_world = Returns (tt, w') /\
    trace w' = trace busy_world ++
      [callback_called (callback_at 1) (list_byte_of_string "one") [];
       callback_called (callback_at 1) (list_byte_of_string "two") [];
       callback_called (callback_at 1) (list_byte_of_string "three") []].
Proof.
  apply (push_then_drain_fifo debug_build stale_bytes (list_byte_of_string "three")
           [] busy_queue busy_world).
  - reflexivity.
  - repeat constructor; discriminate.
  - vm_compute. lia.
  - reflexivity.
  - vm_compute. lia.
  - discriminate.
Defined.

Lemma cubeb_async_log_delivered_witness :
  exists w',
    (cubeb_async_log debug_build format_verbatim stale_bytes stale_bytes
       (list_byte_of_string "x=5") [] ;; drain 1) running_world = Returns (tt, w') /\
    trace w' = trace running_world ++
      [callback_called (callback_at 1) (list_byte_of_string "x=5") []] /\
    msg_queue (instance w')
    = Some (new_lock_free_queue CUBEB_LOG_MESSAGE_QUEUE_DEPTH).
Proof.
  apply (cubeb_async_log_delivered debug_build format_verbatim stale_bytes
           stale_bytes (list_byte_of_string "x=5") []
           (new_lock_free_queue CUBEB_LOG_MESSAGE_QUEUE_DEPTH) running_world).
  - reflexivity.
  - reflexivity.
  - reflexivity.
  - reflexivity.
  - vm_compute. lia.
  - discriminate.
Defined.

Lemma cubeb_async_log_without_queue_witness :
  cubeb_async_log release_build format_verbatim stale_bytes stale_bytes
    (list_byte_of_string "x=5") [] disabled_world = Undefined.
Proof.
  apply (cubeb_async_log_without_queue release_build format_verbatim stale_bytes).
  - reflexivity.
  - reflexivity.
Defined.

Lemma cubeb_log_internal_without_callback_witness :
  cubeb_log_internal format_verbatim stale_bytes (list_byte_of_string "a.cpp") 7%Z
    (list_byte_of_string "x=5") [] initial_world = Undefined.
Proof.
  apply (cubeb_log_internal_without_callback format_verbatim). reflexivity.
Defined.

Lemma stop_forwards_then_discards_witness :
  exists w',
    stop debug_build 1 busy_world = Returns (tt, w') /\
    trace w' = trace busy_world ++
      [callback_called (callback_at 1) (list_byte_of_string "one") [];
       thread_joined] /\
    msg_queue (instance w') = None /\
    logging_thread (instance w') = false /\
    shutdown_thread (instance w') = true.
Proof.
  apply (stop_forwards_then_discards debug_build 1 busy_world busy_queue).
  - reflexivity.
  - reflexivity.
  - discriminate.
Defined.

Lemma stop_twice_witness :
  (stop debug_build 1 ;; stop debug_build 2) busy_world = stop debug_build 1 busy_world.
Proof.
  apply (stop_twice debug_build 1 2 busy_world).
  split; [reflexivity | discriminate].
Defined.

Lemma stop_then_start_witness :
  exists w',
    (stop debug_build 1 ;; start debug_build) busy_world = Returns (tt, w') /\
    instance w' =
      {| msg_queue := Some (new_lock_free_queue CUBEB_LOG_MESSAGE_QUEUE_DEPTH);
         shutdown_thread := false;
         logging_thread := true |} /\
    g_cubeb_log_level w' = g_cubeb_log_level busy_world /\
    g_cubeb_log_callback w' = g_cubeb_log_callback busy_world.
Proof.
  apply (stop_then_start debug_build 1 busy_world).
  split; [reflexivity | discriminate].
Defined.

Lemma purge_queue_discards_witness :
  purge_queue debug_build
    (with_instance (set_logging_thread false (instance busy_world)) busy_world)
  = Returns (tt,
      with_instance
        {| msg_queue := Some (new_lock_free_queue CUBEB_LOG_MESSAGE_QUEUE_DEPTH);
           shutdown_thread := false; logging_thread := false |} busy_world).
Proof.
  apply (purge_queue_discards debug_build
           (with_instance (set_logging_thread false (instance busy_world)) busy_world)
           busy_queue).
  - reflexivity.
  - reflexivity.
Defined.

Lemma cubeb_log_set_enable_while_running_witness :
  cubeb_log_set release_build LOG_DISABLED_0 0 LOG_NORMAL_1 (callback_at 2)
    running_world = Aborted.
Proof.
  apply (cubeb_log_set_enable_while_running release_build LOG_DISABLED_0 0
           LOG_NORMAL_1 (callback_at 2) running_world).
  - discriminate.
  - discriminate.
  - reflexivity.
Defined.

Lemma cubeb_log_set_disable_order_witness :
  exists w',
    cubeb_log_set debug_build LOG_DISABLED_0 1 LOG_DISABLED_0 nullptr busy_world
    = Returns (tt, w') /\
    trace w' = trace busy_world ++ [level_stored LOG_DISABLED_0] ++
      [callback_called (callback_at 1) (list_byte_of_string "one") []] ++
      [thread_joined; callback_stored cubeb_noop_log_callback] /\
    g_cubeb_log_callback w' = cubeb_noop_log_callback /\
    msg_queue (instance w') = None.
Proof.
  apply (cubeb_log_set_disable_order debug_build LOG_DISABLED_0 1 LOG_DISABLED_0
           busy_world busy_queue).
  - reflexivity.
  - reflexivity.
  - discriminate.
Defined.

Lemma cubeb_log_set_absent_callback_witness :
  exists w',
    cubeb_log_set debug_build LOG_DISABLED_0 0 LOG_NORMAL_1 nullptr running_world
    = Returns (tt, w') /\
    cubeb_log_get_callback w' = nullptr /\
    cubeb_log_get_level w' = LOG_NORMAL_1.
Proof.
  apply (cubeb_log_set_absent_callback debug_build LOG_DISABLED_0 0 LOG_NORMAL_1
           running_world).
  split; [reflexivity | discriminate].
Defined.

Lemma cubeb_log_set_stores_level_witness :
  cubeb_log_get_level running_world = LOG_NORMAL_1.
Proof.
  apply (cubeb_log_set_stores_level release_build LOG_DISABLED_0 0 LOG_NORMAL_1
           (callback_at 1) initial_world running_world).
  - split; [reflexivity | discriminate].
  - reflexivity.
Defined.

Lemma cubeb_log_set_then_get_callback_witness :
  exists w',
    cubeb_log_set release_build LOG_DISABLED_0 0 LOG_NORMAL_1 (callback_at 1)
      initial_world = Returns (tt, w') /\
    logging_thread (instance w') = true /\
    cubeb_log_get_callback w' = callback_at 1.
Proof.
  apply (cubeb_log_set_then_get_callback release_build LOG_DISABLED_0 0
           LOG_NORMAL_1 (callback_at 1) initial_world).
  - discriminate.
  - discriminate.
  - reflexivity.
Defined.


Lemma reachable_invariant_witness :
  consistent running_world /\ queue_bounded running_world.
Proof.
  apply (reachable_invariant release_build format_verbatim LOG_DISABLED_0
           running_world).
  eapply rtc_l; [|apply rtc_refl].
  apply (step_set _ _ _ 0 LOG_NORMAL_1 (callback_at 1)). reflexivity.
Defined.

Lemma callback_never_null_again_witness :
  g_cubeb_log_callback disabled_world <> nullptr.
Proof.
  apply (callback_never_null_again release_build format_verbatim LOG_DISABLED_0
           running_world disabled_world).
  - eapply rtc_l; [|apply rtc_refl].
    apply (step_set _ _ _ 0 LOG_NORMAL_1 (callback_at 1)). reflexivity.
  - discriminate.
  - eapply rtc_l; [|apply rtc_refl].
    apply (step_set _ _ _ 0 LOG_DISABLED_0 nullptr). reflexivity.
Defined.
